(** * The /ask streaming relay of server.js

    A shallow embedding of [src/server.js]: the Express application with its
    JSON body parser, the [GET /] and [POST /ask] routes, the catch-all error
    middleware and the start-up sequence.  Handlers are written in a small
    state-and-exception monad over the response object and an ordered trace of
    the effects they perform; the upstream provider is a parameter of the
    handler. *)

From stdpp Require Import base option list strings gmap pretty.
From Stdlib Require Import ZArith Ascii String.

Local Open Scope Z_scope.

(* Let [simpl] compute the append of a literal prefix, as it does for lists. *)
#[local] Arguments String.append !s1 s2 : simpl nomatch.

(** ** JavaScript values *)

(** The values that [express.json()] can put into [req.body], plus
    [undefined] for a property that is not there.  Numbers are kept as
    integers: the handler only ever tests a number for being zero. *)
#[local] Unset Elimination Schemes.
Inductive jsval : Type :=
  | JUndefined
  | JNull
  | JBool (b : bool)
  | JNum (n : Z)
  | JStr (s : string)
  | JArr (items : list jsval)
  | JObj (fields : gmap string jsval).
#[local] Set Elimination Schemes.

(** ToBoolean, as applied by [!x], [if (x)] and [x || y]. *)
Definition truthy (v : jsval) : bool :=
  match v with
  | JUndefined | JNull => false
  | JBool b => b
  | JNum n => negb (n =? 0)
  | JStr s => negb (String.eqb s "")
  | JArr _ | JObj _ => true
  end.

(** [a || b] *)
Definition js_or (a b : jsval) : jsval := if truthy a then a else b.

(** [o.k] on an object: a missing property reads as [undefined]. *)
Definition prop (o : gmap string jsval) (k : string) : jsval :=
  default JUndefined (o !! k).

(** ** JSON text and Server-Sent-Event frames *)

(** Text is held as its UTF-8 bytes; a lone surrogate, which has no such
    form, is outside the model.  The quote, the backslash and the line feed
    are named by their codes. *)
Definition dquote : ascii := ascii_of_nat 34.
Definition backslash : ascii := ascii_of_nat 92.
Definition newline : ascii := ascii_of_nat 10.

Definition hex_digit (n : N) : ascii :=
  if (n <? 10)%N then ascii_of_N (48 + n) else ascii_of_N (87 + n).

(** [\u00XY] for a control character. *)
Definition unicode_escape (n : N) : string :=
  String backslash
    ("u00" +:+ String (hex_digit (n / 16)) (String (hex_digit (n mod 16)) "")).

(** One character of [JSON.stringify] on a string (QuoteJSONString of
    ECMA-262): the two-character escapes for backspace, tab, line feed,
    form feed, carriage return, the double quote and the backslash; the
    [\u] form for every other control character; anything else as it
    is. *)
Definition quote_char (c : ascii) : string :=
  let n := N_of_ascii c in
  if (n =? 8)%N then String backslash "b"
  else if (n =? 9)%N then String backslash "t"
  else if (n =? 10)%N then String backslash "n"
  else if (n =? 12)%N then String backslash "f"
  else if (n =? 13)%N then String backslash "r"
  else if (n =? 34)%N then String backslash (String dquote "")
  else if (n =? 92)%N then String backslash (String backslash "")
  else if (n <? 32)%N then unicode_escape n
  else String c "".

Fixpoint quote_chars (s : string) : string :=
  match s with
  | EmptyString => ""
  | String c s' => quote_char c +:+ quote_chars s'
  end.

(** [JSON.stringify(s)] for a string [s]. *)
Definition json_string (s : string) : string :=
  String dquote (quote_chars s +:+ String dquote "").

(** [JSON.stringify({ k: v })] for an object with one string-valued
    property. *)
Definition json_object1 (k v : string) : string :=
  "{" +:+ json_string k +:+ ":" +:+ json_string v +:+ "}".

Definition frame_end : string := String newline (String newline "").

(** The argument of [res.write] at line 91:
    [`data: ${JSON.stringify({ chunk: content })}\n\n`]. *)
Definition chunk_frame (content : string) : string :=
  "data: " +:+ json_object1 "chunk" content +:+ frame_end.

(** The argument of [res.write] at line 96: ['data: {"done": true}\n\n']. *)
Definition done_frame : string :=
  "data: {" +:+ String dquote ("done" +:+ String dquote (": true}" +:+ frame_end)).

(** *** What a frame carries

    The reader's side of the wire, used to state what the client observes:
    a frame is the text [data: ], one JSON object and a blank line, and the
    object is either the done marker or [{chunk: s}] with [s] a JSON string
    literal. *)
Inductive event : Type :=
  | EvChunk (text : string)
  | EvDone.

Definition hex_value (c : ascii) : option N :=
  let n := N_of_ascii c in
  if ((48 <=? n) && (n <=? 57))%N then Some (n - 48)%N
  else if ((97 <=? n) && (n <=? 102))%N then Some (n - 87)%N
  else if ((65 <=? n) && (n <=? 70))%N then Some (n - 55)%N
  else None.

(** The character a two-character escape stands for. *)
Definition simple_escape (e : ascii) : option ascii :=
  let n := N_of_ascii e in
  if (n =? 98)%N then Some (ascii_of_nat 8)          (* b *)
  else if (n =? 116)%N then Some (ascii_of_nat 9)    (* t *)
  else if (n =? 110)%N then Some (ascii_of_nat 10)   (* n *)
  else if (n =? 102)%N then Some (ascii_of_nat 12)   (* f *)
  else if (n =? 114)%N then Some (ascii_of_nat 13)   (* r *)
  else if (n =? 34)%N then Some dquote
  else if (n =? 92)%N then Some backslash
  else if (n =? 47)%N then Some (ascii_of_nat 47)    (* / *)
  else None.

Definition hex4 (h1 h2 h3 h4 : ascii) : option N :=
  a ← hex_value h1; b ← hex_value h2; c ← hex_value h3; d ← hex_value h4;
  Some (((a * 16 + b) * 16 + c) * 16 + d)%N.

(** Reads the inside of a JSON string literal up to its closing quote and
    returns the text it denotes and what follows the quote.  Raw control
    characters are refused, as [JSON.parse] refuses them; a [\u] escape is
    read when it names a single byte. *)
Fixpoint unquote_chars (s : string) : option (string * string) :=
  match s with
  | EmptyString => None
  | String c s1 =>
      if Ascii.eqb c dquote then Some (EmptyString, s1)
      else if Ascii.eqb c backslash then
        match s1 with
        | EmptyString => None
        | String e s2 =>
            match simple_escape e with
            | Some d =>
                match unquote_chars s2 with
                | Some (t, r) => Some (String d t, r)
                | None => None
                end
            | None =>
                if Ascii.eqb e "u" then
                  match s2 with
                  | String h1 (String h2 (String h3 (String h4 s3))) =>
                      match hex4 h1 h2 h3 h4 with
                      | Some n =>
                          if (n <? 128)%N then
                            match unquote_chars s3 with
                            | Some (t, r) => Some (String (ascii_of_N n) t, r)
                            | None => None
                            end
                          else None
                      | None => None
                      end
                  | _ => None
                  end
                else None
            end
        end
      else if (N_of_ascii c <? 32)%N then None
      else
        match unquote_chars s1 with
        | Some (t, r) => Some (String c t, r)
        | None => None
        end
  end.

(** [strip_prefix p s] is [Some r] when [s = p +:+ r]. *)
Fixpoint strip_prefix (p s : string) : option string :=
  match p with
  | EmptyString => Some s
  | String a p' =>
      match s with
      | EmptyString => None
      | String b s' => if Ascii.eqb a b then strip_prefix p' s' else None
      end
  end.

Definition parse_frame (frame : string) : option event :=
  if String.eqb frame done_frame then Some EvDone
  else
    rest ← strip_prefix ("data: {" +:+ json_string "chunk" +:+ ":") frame;
    match rest with
    | String q body =>
        if Ascii.eqb q dquote then
          '(text, tail) ← unquote_chars body;
          if String.eqb tail ("}" +:+ frame_end) then Some (EvChunk text) else None
        else None
    | EmptyString => None
    end.

(** ** The upstream provider *)

Inductive error : Type := Error (message : string).

(** The argument of [openrouter.chat.completions.stream]. *)
Inductive part : Type :=
  | TextPart (text : jsval)            (* { type: 'text', text } *)
  | ImageUrlPart (url : jsval).        (* { type: 'image_url', image_url: { url } } *)

Inductive message_content : Type :=
  | Plain (text : jsval)
  | Parts (parts : list part).

Record message : Type := Message { role : string; content : message_content }.

Record completion_request : Type := CompletionRequest {
  model : string;
  messages : list message;
  stream : bool
}.

(** One element of the upstream stream, as far as the handler reads it:
    [chunk.choices[0]?.delta?.content].  [None] stands for [undefined] or
    [null]. *)
Record delta : Type := Delta { delta_content : option string }.
Record choice : Type := Choice { choice_delta : option delta }.
Record chunk : Type := Chunk { choices : list choice }.

Definition chunk_content (c : chunk) : option string :=
  ch ← head (choices c); d ← choice_delta ch; delta_content d.

(** How the upstream stream stops: it is exhausted, or its iterator throws. *)
Inductive stream_end : Type :=
  | Completes
  | Breaks (e : error).

(** What the call does: the promise rejects before any stream exists, or it
    resolves to a finite sequence of chunks with its end. *)
Inductive upstream_reply : Type :=
  | Rejects (e : error)
  | Streams (chunks : list chunk) (fin : stream_end).

Definition upstream : Type := completion_request → upstream_reply.

(** ** The response object and the handler monad *)

Inductive effect : Type :=
  | EStatus (code : Z)
  | ESetHeader (name value : string)
  | EJson (text : string)
  | EWrite (data : string)
  | EEnd
  | ESendFile (path : string)
  | EUpstream (r : completion_request)
  | ELog (text : string).

Record response : Type := Response {
  statusCode : Z;
  headers : gmap string string;
  headersSent : bool;
  written : list string;
  finished : bool
}.

(** The response as Node hands it to a handler. *)
Definition fresh_response : response :=
  {| statusCode := 200; headers := ∅; headersSent := false;
     written := []; finished := false |}.

Record world : Type := World { res : response; trace : list effect }.

Definition fresh : world := {| res := fresh_response; trace := [] |}.

Inductive outcome (A : Type) : Type :=
  | Returns (a : A)
  | Throws (e : error).
Arguments Returns {A} a.
Arguments Throws {A} e.

Definition M (A : Type) : Type := world → outcome A * world.

#[export] Instance M_ret : MRet M := λ A a w, (Returns a, w).
#[export] Instance M_bind : MBind M := λ A B f m w,
  match m w with
  | (Returns a, w') => f a w'
  | (Throws e, w') => (Throws e, w')
  end.

Definition throw {A} (e : error) : M A := λ w, (Throws e, w).

(** [try { body } catch (error) { handler error }] *)
Definition try_catch {A} (body : M A) (handler : error → M A) : M A := λ w,
  match body w with
  | (Returns a, w') => (Returns a, w')
  | (Throws e, w') => handler e w'
  end.

Definition emit (e : effect) : M unit := λ w,
  (Returns (), {| res := res w; trace := trace w ++ [e] |}).

Definition get_res : M response := λ w, (Returns (res w), w).

Definition put_res (r : response) : M unit := λ w,
  (Returns (), {| res := r; trace := trace w |}).

Definition headers_sent_error : error :=
  Error "Cannot set headers after they are sent to the client".

(** [res.status(code)] *)
Definition res_status (code : Z) : M unit :=
  emit (EStatus code);;
  r ← get_res;
  put_res {| statusCode := code; headers := headers r;
             headersSent := headersSent r; written := written r;
             finished := finished r |}.

(** [res.setHeader(name, value)]: replaces the value; refused once the
    head of the response is on the wire. *)
Definition res_setHeader (name value : string) : M unit :=
  r ← get_res;
  if headersSent r then throw headers_sent_error
  else
    emit (ESetHeader name value);;
    put_res {| statusCode := statusCode r;
               headers := <[name := value]> (headers r);
               headersSent := false; written := written r;
               finished := finished r |}.

(** [res.write(data)]: sends the head if it is not out yet, then [data].
    After [end] the data is discarded. *)
Definition res_write (data : string) : M unit :=
  emit (EWrite data);;
  r ← get_res;
  if finished r then mret ()
  else
    put_res {| statusCode := statusCode r; headers := headers r;
               headersSent := true; written := written r ++ [data];
               finished := false |}.

(** [res.end()] *)
Definition res_end : M unit :=
  emit EEnd;;
  r ← get_res;
  put_res {| statusCode := statusCode r; headers := headers r;
             headersSent := true; written := written r;
             finished := true |}.

(** [res.json(obj)], given the text [JSON.stringify(obj)]: the content type
    is set unless the handler chose one, the text is the whole body, and the
    response is complete. *)
Definition res_json (text : string) : M unit :=
  r ← get_res;
  if headersSent r then throw headers_sent_error
  else
    emit (EJson text);;
    put_res {| statusCode := statusCode r;
               headers :=
                 match headers r !! "Content-Type" with
                 | Some _ => headers r
                 | None =>
                     <["Content-Type" := "application/json; charset=utf-8"]>
                       (headers r)
                 end;
               headersSent := true; written := written r ++ [text];
               finished := true |}.

(** [console.error(text, error)] *)
Definition console_error (text : string) (e : error) : M unit :=
  emit (ELog text).

(** [await openrouter.chat.completions.stream(r)] *)
Definition completions_stream (openrouter : upstream) (r : completion_request)
    : M (list chunk * stream_end) :=
  emit (EUpstream r);;
  match openrouter r with
  | Rejects e => throw e
  | Streams chunks fin => mret (chunks, fin)
  end.

(** [for await (const chunk of stream) { body chunk }] *)
Fixpoint for_await (chunks : list chunk) (fin : stream_end)
    (body : chunk → M unit) : M unit :=
  match chunks with
  | [] =>
      match fin with
      | Completes => mret ()
      | Breaks e => throw e
      end
  | c :: rest => body c;; for_await rest fin body
  end.

(** [const { k } = v]: reading a property off [undefined] or [null] throws
    a TypeError; an object yields the property; any other value has no such
    property of its own. *)
Definition get_property (v : jsval) (k : string) : M jsval :=
  match v with
  | JUndefined | JNull =>
      throw (Error ("Cannot destructure property '" +:+ k +:+ "'"))
  | JObj o => mret (prop o k)
  | _ => mret JUndefined
  end.

(** ** The routes *)

Definition system_prompt : string :=
  "You are a helpful legal assistant. Provide clear, concise, and accurate information. Your answers should be in the same language as the user's question (English, French, or Arabic).".

Definition default_image_prompt : string := "What is in this image?".

Definition model_id : string := "google/gemini-2.0-flash-exp:free".

Definition validation_message : string := "Question or Image URL is required.".

(** Lines 59-72: the messages for the upstream call. *)
Definition build_messages (question imageUrl : jsval) : list message :=
  if truthy imageUrl then
    [ {| role := "user";
         content := Parts [ TextPart (js_or question (JStr default_image_prompt));
                            ImageUrlPart imageUrl ] |} ]
  else
    [ {| role := "system"; content := Plain (JStr system_prompt) |};
      {| role := "user"; content := Plain question |} ].

(** Lines 80-84: the argument of the streamed call. *)
Definition stream_request (question imageUrl : jsval) : completion_request :=
  {| model := model_id;
     messages := build_messages question imageUrl;
     stream := true |}.

(** Lines 88-92: the body of the stream loop. *)
Definition forward_chunk (c : chunk) : M unit :=
  match chunk_content c with
  | Some text =>
      if truthy (JStr text) then res_write (chunk_frame text) else mret ()
  | None => mret ()
  end.

(** [app.post('/ask', async (req, res) => { ... })], given [req.body]. *)
Definition ask (openrouter : upstream) (body : jsval) : M unit :=
  try_catch
    (question ← get_property body "question";
     imageUrl ← get_property body "imageUrl";
     if negb (truthy question) && negb (truthy imageUrl) then
       res_status 400;;
       res_json (json_object1 "error" validation_message)
     else
       res_setHeader "Content-Type" "text/event-stream";;
       res_setHeader "Cache-Control" "no-cache";;
       res_setHeader "Connection" "keep-alive";;
       '(chunks, fin) ← completions_stream openrouter
                          (stream_request question imageUrl);
       for_await chunks fin forward_chunk;;
       res_write done_frame;;
       res_end)
    (λ error,
       console_error "Error in /ask streaming route:" error;;
       res_end).

Definition internal_error_message : string :=
  "An internal server error occurred.".

(** Lines 110-113: [app.use((err, req, res, next) => { ... })]. *)
Definition error_middleware (err : error) : M unit :=
  console_error "An unexpected error occurred:" err;;
  res_status 500;;
  res_json (json_object1 "error" internal_error_message).

(** ** The application *)

Inductive http_method : Type := GET | POST | OtherMethod (name : string).

(** What the body parser makes of the request: the value it leaves in
    [req.body], or a failure that it passes to [next]. *)
Inductive payload : Type :=
  | Json (v : jsval)
  | Malformed (e : error).

Record request : Type := Request {
  method : http_method;
  path : string;
  body : payload
}.

(** [app.use(express.json())] *)
Definition express_json (req : request) : M jsval :=
  match body req with
  | Json v => mret v
  | Malformed e => throw e
  end.

(** The server's surroundings: the directory of the script and the files
    that can be read from disk. *)
Record host : Type := Host {
  dirname : string;
  files : gmap string string
}.

(** [res.sendFile(p)]: the file is the body; when it cannot be read the
    error goes to [next]. *)
Definition res_sendFile (h : host) (p : string) : M unit :=
  emit (ESendFile p);;
  match files h !! p with
  | Some text => res_write text;; res_end
  | None => throw (Error "ENOENT: no such file or directory")
  end.

(** [app.get('/', ...)] *)
Definition index (h : host) : M unit :=
  res_sendFile h (dirname h +:+ "/index.html").

(** Where Express ends up when no route matches. *)
Definition not_found : M unit := res_status 404;; res_end.

(** The stack in registration order: body parser, routes, and the error
    middleware for whatever they pass on. *)
Definition routes (h : host) (openrouter : upstream) (req : request) : M unit :=
  v ← express_json req;
  match method req with
  | GET => if String.eqb (path req) "/" then index h else not_found
  | POST => if String.eqb (path req) "/ask" then ask openrouter v else not_found
  | OtherMethod _ => not_found
  end.

Definition app (h : host) (openrouter : upstream) (req : request) : M unit :=
  try_catch (routes h openrouter req) error_middleware.

(** The response the client gets and the effects behind it. *)
Definition serve (h : host) (openrouter : upstream) (req : request) : world :=
  snd (app h openrouter req fresh).

(** ** Start-up *)

(** [process.env.NAME] *)
Definition env_get (env : gmap string string) (name : string) : jsval :=
  from_option JStr JUndefined (env !! name).

(** Line 17: [process.env.PORT || 3000]. *)
Definition port (env : gmap string string) : jsval :=
  js_or (env_get env "PORT") (JNum 3000).







(** * Vocabulary for the statements *)

(** The test of line 51, read positively. *)
Definition passes_validation (o : gmap string jsval) : bool :=
  truthy (prop o "question") || truthy (prop o "imageUrl").

(** The request the handler sends upstream for a body. *)
Definition request_of (o : gmap string jsval) : completion_request :=
  stream_request (prop o "question") (prop o "imageUrl").

(** The texts a sequence of chunks carries, empty ones left out. *)
Definition fragments (chunks : list chunk) : list string :=
  filter (λ s, s ≠ "") (omap chunk_content chunks).

(** The upstream calls among the effects, in order. *)
Definition upstream_calls (t : list effect) : list completion_request :=
  omap (λ e, match e with EUpstream r => Some r | _ => None end) t.

(** The headers of lines 75-77. *)
Definition stream_headers : gmap string string :=
  <["Connection" := "keep-alive"]>
    (<["Cache-Control" := "no-cache"]>
       (<["Content-Type" := "text/event-stream"]> ∅)).

Definition stream_prologue (r : completion_request) : list effect :=
  [ ESetHeader "Content-Type" "text/event-stream";
    ESetHeader "Cache-Control" "no-cache";
    ESetHeader "Connection" "keep-alive";
    EUpstream r ].

Definition end_outcome (fin : stream_end) : outcome unit :=
  match fin with
  | Completes => Returns ()
  | Breaks e => Throws e
  end.

Definition log_ask : effect := ELog "Error in /ask streaming route:".

(** A chunk that carries the text [s] in its first choice. *)
Definition text_chunk (s : string) : chunk :=
  {| choices := [ {| choice_delta := Some {| delta_content := Some s |} |} ] |}.

(** What the client reads: each write of the handler taken as one frame. *)
Definition observed (w : world) : list (option event) :=
  map parse_frame (written (res w)).

(** The statement of the ordering property for fragments [a], [b], [c]:
    the handler wrote exactly their three frames and the done marker, the
    client reads them back as such, and the response is closed after the
    last write. *)
Definition relayed_in_order (up : upstream) (o : gmap string jsval)
    (a b c : string) : Prop :=
  let w := snd (ask up (JObj o) fresh) in
  observed w = [Some (EvChunk a); Some (EvChunk b); Some (EvChunk c); Some EvDone]
  ∧ finished (res w) = true.

(** The statement that a failed upstream call is reported: a server-error
    status, a JSON error object as the whole body, and a response that is
    not an event stream. *)
Definition failure_reported (up : upstream) (o : gmap string jsval) : Prop :=
  let w := snd (ask up (JObj o) fresh) in
  500 ≤ statusCode (res w) < 600
  ∧ (∃ msg, written (res w) = [json_object1 "error" msg])
  ∧ headers (res w) !! "Content-Type" ≠ Some "text/event-stream".

(** The chunks an upstream reply delivers before it stops. *)
Definition emitted (r : upstream_reply) : list chunk :=
  match r with
  | Rejects _ => []
  | Streams chunks _ => chunks
  end.

(** The reply ends in an error: the call is rejected, or the stream breaks. *)
Definition fails (r : upstream_reply) : Prop :=
  match r with
  | Rejects _ | Streams _ (Breaks _) => True
  | Streams _ Completes => False
  end.

(** The text an observed frame contributes to the answer the client
    assembles: a chunk's text, and nothing for the done marker. *)
Definition event_text (e : option event) : string :=
  match e with
  | Some (EvChunk s) => s
  | _ => ""
  end.

Definition concat_texts (l : list string) : string := foldr String.append "" l.

(** The answer as the client puts it together from what it read. *)
Definition assembled (w : world) : string :=
  concat_texts (map event_text (observed w)).

(** A body that is neither an object nor [undefined] or [null]. *)
Definition primitive_or_array (v : jsval) : Prop :=
  match v with
  | JBool _ | JNum _ | JStr _ | JArr _ => True
  | JUndefined | JNull | JObj _ => False
  end.

(** A character that is not a control character. *)
Definition printable (c : ascii) : bool := (32 <=? N_of_ascii c)%N.

Definition all_printable (t : string) : bool :=
  forallb printable (list_ascii_of_string t).


(** * Properties *)

(** ** Frames can be read back *)

Lemma unquote_quote_char (c : ascii) (t : string) :
  unquote_chars (quote_char c +:+ t) =
  match unquote_chars t with
  | Some (s, r) => Some (String c s, r)
  | None => None
  end.
Proof. destruct c as [[] [] [] [] [] [] [] []]; reflexivity. Qed.

Lemma append_String_assoc (a b c : string) : (a +:+ b) +:+ c = a +:+ (b +:+ c).
Proof. induction a as [|x a IH]; simpl; [reflexivity | now rewrite IH]. Qed.

Lemma unquote_quote (s rest : string) :
  unquote_chars (quote_chars s +:+ String dquote rest) = Some (s, rest).
Proof.
  induction s as [|c s IH]; simpl.
  - reflexivity.
  - rewrite append_String_assoc, unquote_quote_char, IH. reflexivity.
Qed.

Lemma parse_chunk_frame (s : string) :
  parse_frame (chunk_frame s) = Some (EvChunk s).
Proof.
  unfold parse_frame, chunk_frame, json_object1, json_string.
  simpl. rewrite !append_String_assoc. simpl.
  rewrite unquote_quote. reflexivity.
Qed.

Lemma parse_done_frame : parse_frame done_frame = Some EvDone.
Proof. reflexivity. Qed.

Lemma chunk_frame_inj (s t : string) : chunk_frame s = chunk_frame t → s = t.
Proof.
  intros H. apply (f_equal parse_frame) in H.
  rewrite !parse_chunk_frame in H. congruence.
Qed.

Lemma chunk_frame_not_done (s : string) : chunk_frame s ≠ done_frame.
Proof.
  intros H. apply (f_equal parse_frame) in H.
  rewrite parse_chunk_frame, parse_done_frame in H. discriminate.
Qed.

(** ** One step of each primitive *)

Lemma run_bind {A B} (m : M A) (f : A → M B) (w : world) :
  (m ≫= f) w =
  match m w with
  | (Returns a, w') => f a w'
  | (Throws e, w') => (Throws e, w')
  end.
Proof. reflexivity. Qed.

Lemma run_ret {A} (a : A) (w : world) : (mret a : M A) w = (Returns a, w).
Proof. reflexivity. Qed.

Lemma run_write (data : string) sc hs sent wr t :
  res_write data {| res := Response sc hs sent wr false; trace := t |} =
  (Returns (),
   {| res := Response sc hs true (wr ++ [data]) false;
      trace := t ++ [EWrite data] |}).
Proof. reflexivity. Qed.

Lemma run_end sc hs sent wr fin t :
  res_end {| res := Response sc hs sent wr fin; trace := t |} =
  (Returns (),
   {| res := Response sc hs true wr true; trace := t ++ [EEnd] |}).
Proof. reflexivity. Qed.

Lemma run_setHeader (name value : string) sc hs wr fin t :
  res_setHeader name value
    {| res := Response sc hs false wr fin; trace := t |} =
  (Returns (),
   {| res := Response sc (<[name := value]> hs) false wr fin;
      trace := t ++ [ESetHeader name value] |}).
Proof. reflexivity. Qed.

Lemma run_status (code : Z) sc hs sent wr fin t :
  res_status code {| res := Response sc hs sent wr fin; trace := t |} =
  (Returns (),
   {| res := Response code hs sent wr fin; trace := t ++ [EStatus code] |}).
Proof. reflexivity. Qed.

Lemma run_json (text : string) sc hs wr fin t :
  hs !! "Content-Type" = None →
  res_json text {| res := Response sc hs false wr fin; trace := t |} =
  (Returns (),
   {| res := Response sc
               (<["Content-Type" := "application/json; charset=utf-8"]> hs)
               true (wr ++ [text]) true;
      trace := t ++ [EJson text] |}).
Proof.
  intros H. unfold res_json. rewrite run_bind. cbn [get_res res headersSent].
  rewrite run_bind. cbn [emit res trace]. unfold put_res.
  cbn [res trace headers statusCode written]. now rewrite H.
Qed.

Lemma run_log (text : string) (e : error) (w : world) :
  console_error text e w =
  (Returns (), {| res := res w; trace := trace w ++ [ELog text] |}).
Proof. reflexivity. Qed.

Lemma run_get_property (o : gmap string jsval) (k : string) (w : world) :
  get_property (JObj o) k w = (Returns (prop o k), w).
Proof. reflexivity. Qed.

Lemma run_try {A} (body : M A) (handler : error → M A) (w : world) :
  try_catch body handler w =
  match body w with
  | (Returns a, w') => (Returns a, w')
  | (Throws e, w') => handler e w'
  end.
Proof. reflexivity. Qed.

(** ** The stream loop *)

Lemma truthy_JStr (s : string) : truthy (JStr s) = bool_decide (s ≠ "").
Proof.
  simpl. destruct (String.eqb_spec s ""); simpl.
  - rewrite bool_decide_eq_false_2; [reflexivity | tauto].
  - rewrite bool_decide_eq_true_2; [reflexivity | assumption].
Qed.

Lemma fragments_cons (c : chunk) (rest : list chunk) :
  fragments (c :: rest) =
  match chunk_content c with
  | Some s => if truthy (JStr s) then s :: fragments rest else fragments rest
  | None => fragments rest
  end.
Proof.
  unfold fragments. cbn [omap list_omap].
  destruct (chunk_content c) as [s|]; [|reflexivity].
  rewrite truthy_JStr, filter_cons.
  destruct (decide (s ≠ "")) as [H|H].
  - now rewrite bool_decide_eq_true_2.
  - now rewrite bool_decide_eq_false_2.
Qed.

(** Running the loop on an open response appends one frame per fragment,
    in order, and ends the way the stream ends. *)
Lemma for_await_forward (chunks : list chunk) (fin : stream_end) :
  ∀ sc hs sent wr t,
    for_await chunks fin forward_chunk
      {| res := Response sc hs sent wr false; trace := t |} =
    (end_outcome fin,
     {| res := Response sc hs
                 (sent || bool_decide (fragments chunks ≠ []))
                 (wr ++ map chunk_frame (fragments chunks)) false;
        trace := t ++ map EWrite (map chunk_frame (fragments chunks)) |}).
Proof.
  induction chunks as [|c rest IH]; intros sc hs sent wr t.
  - simpl. rewrite orb_false_r, !app_nil_r. now destruct fin.
  - rewrite fragments_cons. cbn [for_await].
    rewrite run_bind. unfold forward_chunk.
    destruct (chunk_content c) as [s|].
    + destruct (truthy (JStr s)).
      * rewrite run_write. fold forward_chunk. rewrite IH.
        cbn [map orb].
        rewrite (bool_decide_eq_true_2 (s :: fragments rest ≠ [])) by done.
        rewrite orb_true_r.
        now rewrite <- !app_assoc.
      * rewrite run_ret. fold forward_chunk. apply IH.
    + rewrite run_ret. fold forward_chunk. apply IH.
Qed.

(** Runs the handler in the goal one primitive at a time. *)
Ltac run_step :=
  first
    [ rewrite run_bind
    | rewrite run_ret
    | rewrite run_try
    | rewrite run_get_property
    | rewrite run_setHeader
    | rewrite run_status
    | rewrite run_write
    | rewrite run_end
    | rewrite run_log
    | rewrite for_await_forward; cbn [end_outcome] ];
  cbv beta iota; cbn [res trace].

(** ** The /ask handler, case by case *)

Lemma validation_test (o : gmap string jsval) :
  negb (truthy (prop o "question")) && negb (truthy (prop o "imageUrl")) =
  negb (passes_validation o).
Proof. unfold passes_validation. now rewrite negb_orb. Qed.

(** A body that fails the test of line 51. *)
Lemma ask_invalid (up : upstream) (o : gmap string jsval) :
  passes_validation o = false →
  ask up (JObj o) fresh =
  (Returns (),
   {| res := Response 400
               {[ "Content-Type" := "application/json; charset=utf-8" ]}
               true [json_object1 "error" validation_message] true;
      trace := [EStatus 400; EJson (json_object1 "error" validation_message)] |}).
Proof.
  intros H. unfold ask. do 5 run_step.
  rewrite validation_test, H. cbn [negb].
  unfold fresh, fresh_response.
  do 2 run_step. rewrite run_json by apply lookup_empty.
  reflexivity.
Qed.

(** A body that passes it: the final state only depends on what the
    upstream does. *)
Lemma ask_valid (up : upstream) (o : gmap string jsval) :
  passes_validation o = true →
  ask up (JObj o) fresh =
  (Returns (),
   match up (request_of o) with
   | Rejects e =>
       {| res := Response 200 stream_headers true [] true;
          trace := stream_prologue (request_of o) ++ [log_ask; EEnd] |}
   | Streams chunks Completes =>
       {| res := Response 200 stream_headers true
                   (map chunk_frame (fragments chunks) ++ [done_frame]) true;
          trace := stream_prologue (request_of o)
                   ++ map EWrite (map chunk_frame (fragments chunks))
                   ++ [EWrite done_frame; EEnd] |}
   | Streams chunks (Breaks e) =>
       {| res := Response 200 stream_headers true
                   (map chunk_frame (fragments chunks)) true;
          trace := stream_prologue (request_of o)
                   ++ map EWrite (map chunk_frame (fragments chunks))
                   ++ [log_ask; EEnd] |}
   end).
Proof.
  intros H. unfold ask. do 5 run_step.
  rewrite validation_test, H. cbn [negb].
  unfold fresh, fresh_response.
  do 6 run_step. fold stream_headers.
  unfold completions_stream. do 2 run_step. unfold emit. cbn [res trace].
  fold (request_of o).
  destruct (up (request_of o)) as [e | chunks fin].
  - unfold throw. repeat run_step. reflexivity.
  - destruct fin as [|e]; repeat run_step;
      unfold stream_prologue; cbn [app]; rewrite <- !app_assoc; reflexivity.
Qed.

Lemma upstream_calls_writes (frames : list string) :
  upstream_calls (map EWrite frames) = [].
Proof. induction frames as [|f frames IH]; [reflexivity | exact IH]. Qed.

Lemma upstream_calls_app (t1 t2 : list effect) :
  upstream_calls (t1 ++ t2) = upstream_calls t1 ++ upstream_calls t2.
Proof. apply omap_app. Qed.

(** A validated request reaches the upstream exactly once, with the
    request built from its body; a rejected one never does. *)
Lemma ask_upstream_calls (up : upstream) (o : gmap string jsval) :
  upstream_calls (trace (snd (ask up (JObj o) fresh))) =
  if passes_validation o then [request_of o] else [].
Proof.
  destruct (passes_validation o) eqn:H.
  - rewrite ask_valid by assumption. cbn [snd].
    destruct (up (request_of o)) as [e | chunks [|e]]; cbn [trace];
      rewrite ?upstream_calls_app, ?upstream_calls_writes; reflexivity.
  - rewrite ask_invalid by assumption. reflexivity.
Qed.

(** ** Every request to /ask is answered *)

(** A [req.body] that cannot be destructured (line 49 throws inside the
    [try]) ends in the catch block: the error is logged and the response is
    ended as it stands, an empty 200. *)
Lemma ask_without_body (up : upstream) (v : jsval) :
  v = JUndefined ∨ v = JNull →
  ∃ text,
    ask up v fresh =
    (Returns (),
     {| res := Response 200 ∅ true [] true;
        trace := [log_ask; EEnd] |})
    ∧ get_property v "question" fresh = (Throws (Error text), fresh).
Proof.
  intros [-> | ->]; eexists; split; reflexivity.
Qed.

(** Whatever the body and whatever the upstream does, the handler returns
    with the response complete. *)
Lemma ask_always_finishes (up : upstream) (v : jsval) :
  finished (res (snd (ask up v fresh))) = true.
Proof.
  destruct v as [| | b | n | s | items | o]; try reflexivity.
  destruct (passes_validation o) eqn:Hv.
  - rewrite ask_valid by assumption.
    now destruct (up (request_of o)) as [e | chunks [|e]].
  - now rewrite ask_invalid.
Qed.

(** ** Validation *)

(** X17. For an object body in which [question] and [imageUrl] are both
    empty or absent (both fail the truthiness test of line 51), the handler
    answers with status 400 and
    the JSON body [{ error: 'Question or Image URL is required.' }], the
    response is complete, and nothing else has happened: the two effects
    listed are the whole trace, so no upstream call was made and no header
    was set by the handler. *)
Theorem ask_rejects_empty_request (up : upstream) (o : gmap string jsval) :
  truthy (prop o "question") = false →
  truthy (prop o "imageUrl") = false →
  let w := snd (ask up (JObj o) fresh) in
  fst (ask up (JObj o) fresh) = Returns ()
  ∧ statusCode (res w) = 400
  ∧ written (res w) = [json_object1 "error" "Question or Image URL is required."]
  ∧ finished (res w) = true
  ∧ trace w =
      [EStatus 400;
       EJson (json_object1 "error" "Question or Image URL is required.")]
  ∧ upstream_calls (trace w) = []
  ∧ (∀ name value, ESetHeader name value ∉ trace w)
  ∧ headers (res w) !! "Content-Type" ≠ Some "text/event-stream".
Proof.
  intros Hq Hi. cbv zeta.
  rewrite ask_invalid by (unfold passes_validation; now rewrite Hq, Hi).
  cbn [fst snd res trace statusCode written finished headers].
  repeat split.
  - intros name value Hin.
    apply elem_of_cons in Hin as [Hin | Hin]; [discriminate |].
    apply elem_of_cons in Hin as [Hin | Hin]; [discriminate |].
    now apply elem_of_nil in Hin.
  - rewrite lookup_singleton_eq. discriminate.
Qed.

Lemma ask_rejects_empty_request_witness :
  let w := snd (ask (λ _, Rejects (Error "unreachable")) (JObj ∅) fresh) in
  fst (ask (λ _, Rejects (Error "unreachable")) (JObj ∅) fresh) = Returns ()
  ∧ statusCode (res w) = 400
  ∧ written (res w) = [json_object1 "error" "Question or Image URL is required."]
  ∧ finished (res w) = true
  ∧ trace w =
      [EStatus 400;
       EJson (json_object1 "error" "Question or Image URL is required.")]
  ∧ upstream_calls (trace w) = []
  ∧ (∀ name value, ESetHeader name value ∉ trace w)
  ∧ headers (res w) !! "Content-Type" ≠ Some "text/event-stream".
Proof.
  apply (ask_rejects_empty_request (λ _, Rejects (Error "unreachable")) ∅);
    reflexivity.
Defined.

(** ** The messages sent upstream *)

(** C4. With a question that is there and not empty and no image URL, the
    handler makes one upstream call, and its messages are exactly the system
    instruction followed by one user message whose content is the
    question. *)
Theorem text_only_messages (up : upstream) (o : gmap string jsval) :
  truthy (prop o "question") = true →
  truthy (prop o "imageUrl") = false →
  map messages (upstream_calls (trace (snd (ask up (JObj o) fresh)))) =
  [ [ {| role := "system"; content := Plain (JStr system_prompt) |};
      {| role := "user"; content := Plain (prop o "question") |} ] ].
Proof.
  intros Hq Hi. rewrite ask_upstream_calls.
  unfold passes_validation, request_of, stream_request, build_messages.
  rewrite Hq, Hi. reflexivity.
Qed.

Lemma text_only_messages_witness :
  map messages
    (upstream_calls
       (trace (snd (ask (λ _, Streams [] Completes)
                      (JObj {[ "question" := JStr "What is a contract?" ]})
                      fresh)))) =
  [ [ {| role := "system"; content := Plain (JStr system_prompt) |};
      {| role := "user"; content := Plain (JStr "What is a contract?") |} ] ].
Proof.
  exact (text_only_messages (λ _, Streams [] Completes)
           {[ "question" := JStr "What is a contract?" ]} eq_refl eq_refl).
Defined.

(** C5. With an image URL that is there and not empty, the handler makes
    one upstream call whose messages are exactly one user message of two
    parts: a text part, which is the question when the question is there and
    not empty and the fixed prompt otherwise, and an image part referring to
    the URL. *)
Theorem image_messages (up : upstream) (o : gmap string jsval) :
  truthy (prop o "imageUrl") = true →
  ∃ text,
    map messages (upstream_calls (trace (snd (ask up (JObj o) fresh)))) =
    [ [ {| role := "user";
           content := Parts [ TextPart text;
                              ImageUrlPart (prop o "imageUrl") ] |} ] ]
    ∧ (truthy (prop o "question") = true → text = prop o "question")
    ∧ (truthy (prop o "question") = false →
       text = JStr "What is in this image?").
Proof.
  intros Hi. exists (js_or (prop o "question") (JStr default_image_prompt)).
  rewrite ask_upstream_calls.
  unfold passes_validation, request_of, stream_request, build_messages, js_or.
  rewrite Hi, orb_true_r. split; [reflexivity |].
  split; intros ->; reflexivity.
Qed.

Lemma image_messages_witness :
  ∃ text,
    map messages
      (upstream_calls
         (trace (snd (ask (λ _, Streams [] Completes)
                        (JObj {[ "imageUrl" := JStr "https://example.org/a.png" ]})
                        fresh)))) =
    [ [ {| role := "user";
           content :=
             Parts [ TextPart text;
                     ImageUrlPart
                       (prop {[ "imageUrl" := JStr "https://example.org/a.png" ]}
                          "imageUrl") ] |} ] ]
    ∧ (truthy (prop {[ "imageUrl" := JStr "https://example.org/a.png" ]}
                 "question") = true →
       text = prop {[ "imageUrl" := JStr "https://example.org/a.png" ]} "question")
    ∧ (truthy (prop {[ "imageUrl" := JStr "https://example.org/a.png" ]}
                 "question") = false →
       text = JStr "What is in this image?").
Proof.
  exact (image_messages (λ _, Streams [] Completes)
           {[ "imageUrl" := JStr "https://example.org/a.png" ]} eq_refl).
Defined.

(** ** Relaying the stream *)

Lemma observed_frames (texts : list string) :
  map parse_frame (map chunk_frame texts) = map (λ s, Some (EvChunk s)) texts.
Proof.
  induction texts as [|s texts IH]; [reflexivity |].
  cbn [map]. now rewrite parse_chunk_frame, IH.
Qed.

(** The fragments of a stream whose texts are all non-empty are those
    texts. *)
Lemma fragments_nonempty (chunks : list chunk) (texts : list string) :
  map chunk_content chunks = map Some texts →
  Forall (λ s, s ≠ "") texts →
  fragments chunks = texts.
Proof.
  revert texts. induction chunks as [|c chunks IH]; intros [|s texts] Hc Hne;
    try discriminate; [reflexivity |].
  cbn [map] in Hc. injection Hc as Hs Hrest.
  apply Forall_cons in Hne as [Hs' Hne].
  rewrite fragments_cons, Hs, truthy_JStr, bool_decide_eq_true_2 by assumption.
  f_equal. now apply IH.
Qed.

(** C1, as amended.  When the upstream stream emits three non-empty
    fragments [a], [b], [c] in that order and completes, the handler writes
    one frame carrying exactly [a], then [b], then [c], then the done marker,
    and nothing else; the client reads them back in that order; and the
    response is ended after the last write. *)
Theorem fragments_relayed_in_order (up : upstream) (o : gmap string jsval)
    (chunks : list chunk) (a b c : string) :
  passes_validation o = true →
  up (request_of o) = Streams chunks Completes →
  map chunk_content chunks = [Some a; Some b; Some c] →
  a ≠ "" → b ≠ "" → c ≠ "" →
  let w := snd (ask up (JObj o) fresh) in
  written (res w) = [chunk_frame a; chunk_frame b; chunk_frame c; done_frame]
  ∧ trace w =
      stream_prologue (request_of o)
      ++ [EWrite (chunk_frame a); EWrite (chunk_frame b);
          EWrite (chunk_frame c); EWrite done_frame; EEnd]
  ∧ relayed_in_order up o a b c.
Proof.
  intros Hv Hup Hc Ha Hb Hc'. unfold relayed_in_order, observed. cbv zeta.
  rewrite ask_valid, Hup by assumption.
  cbn [snd res trace written finished].
  rewrite (fragments_nonempty chunks [a; b; c]) by (auto using Forall_cons, Forall_nil).
  rewrite map_app. cbn [map].
  rewrite !parse_chunk_frame, parse_done_frame. repeat split.
Qed.

Lemma fragments_relayed_in_order_witness :
  let up : upstream :=
    λ _, Streams [text_chunk "a"; text_chunk "b"; text_chunk "c"] Completes in
  let o : gmap string jsval := {[ "question" := JStr "What is a contract?" ]} in
  let w := snd (ask up (JObj o) fresh) in
  written (res w) = [chunk_frame "a"; chunk_frame "b"; chunk_frame "c"; done_frame]
  ∧ trace w =
      stream_prologue (request_of o)
      ++ [EWrite (chunk_frame "a"); EWrite (chunk_frame "b");
          EWrite (chunk_frame "c"); EWrite done_frame; EEnd]
  ∧ relayed_in_order up o "a" "b" "c".
Proof.
  apply (fragments_relayed_in_order
           (λ _, Streams [text_chunk "a"; text_chunk "b"; text_chunk "c"] Completes)
           {[ "question" := JStr "What is a contract?" ]}
           [text_chunk "a"; text_chunk "b"; text_chunk "c"] "a" "b" "c");
    first [reflexivity | discriminate].
Defined.

(** C1 as stated fails when a fragment is the empty string: the stream
    emits [""], ["b"], ["c"] and completes, and the client reads only the
    frames of ["b"] and ["c"] before the done marker. *)
Lemma empty_fragment_is_dropped :
  let up : upstream :=
    λ _, Streams [text_chunk ""; text_chunk "b"; text_chunk "c"] Completes in
  let o : gmap string jsval := {[ "question" := JStr "What is a contract?" ]} in
  passes_validation o = true
  ∧ up (request_of o) =
      Streams [text_chunk ""; text_chunk "b"; text_chunk "c"] Completes
  ∧ map chunk_content [text_chunk ""; text_chunk "b"; text_chunk "c"] =
      [Some ""; Some "b"; Some "c"]
  ∧ observed (snd (ask up (JObj o) fresh)) =
      [Some (EvChunk "b"); Some (EvChunk "c"); Some EvDone]
  ∧ ¬ relayed_in_order up o "" "b" "c".
Proof.
  cbv zeta. repeat split.
  intros [H _]. vm_compute in H. discriminate.
Qed.

(** ** Failures *)

(** C2, as amended.  When the request passes validation and the upstream
    call is rejected before any stream exists, the handler logs the error
    and ends the response with no body at all: the status stays 200, the
    event-stream headers set before the call stay, no JSON error is sent and
    no frame is written. *)
Theorem upstream_rejection_closes_silently (up : upstream)
    (o : gmap string jsval) (e : error) :
  passes_validation o = true →
  up (request_of o) = Rejects e →
  let w := snd (ask up (JObj o) fresh) in
  fst (ask up (JObj o) fresh) = Returns ()
  ∧ statusCode (res w) = 200
  ∧ headers (res w) !! "Content-Type" = Some "text/event-stream"
  ∧ written (res w) = []
  ∧ finished (res w) = true
  ∧ trace w = stream_prologue (request_of o) ++ [log_ask; EEnd].
Proof.
  intros Hv Hup. cbv zeta. rewrite ask_valid, Hup by assumption.
  repeat split.
Qed.

Lemma upstream_rejection_closes_silently_witness :
  let up : upstream := λ _, Rejects (Error "fetch failed") in
  let o : gmap string jsval := {[ "question" := JStr "What is a contract?" ]} in
  let w := snd (ask up (JObj o) fresh) in
  fst (ask up (JObj o) fresh) = Returns ()
  ∧ statusCode (res w) = 200
  ∧ headers (res w) !! "Content-Type" = Some "text/event-stream"
  ∧ written (res w) = []
  ∧ finished (res w) = true
  ∧ trace w = stream_prologue (request_of o) ++ [log_ask; EEnd].
Proof.
  exact (upstream_rejection_closes_silently
           (λ _, Rejects (Error "fetch failed"))
           {[ "question" := JStr "What is a contract?" ]}
           (Error "fetch failed") eq_refl eq_refl).
Defined.

(** C2 as stated fails: the request passes validation, the upstream call is
    rejected, and the response is an empty 200 under the event-stream
    content type. *)
Lemma upstream_rejection_not_reported :
  let up : upstream := λ _, Rejects (Error "fetch failed") in
  let o : gmap string jsval := {[ "question" := JStr "What is a contract?" ]} in
  passes_validation o = true
  ∧ up (request_of o) = Rejects (Error "fetch failed")
  ∧ statusCode (res (snd (ask up (JObj o) fresh))) = 200
  ∧ written (res (snd (ask up (JObj o) fresh))) = []
  ∧ ¬ failure_reported up o.
Proof.
  cbv zeta. repeat split.
  intros [[H _] _]. vm_compute in H. apply H. reflexivity.
Qed.

(** C6. When the request passes validation (so the event-stream headers are
    set) and the upstream then fails, whether the call is rejected or the
    stream breaks after some chunks, the handler ends the response without a
    JSON error and without the done marker: what was written is exactly one
    frame per fragment received before the failure, each read back by the
    client as that fragment, and the last thing the handler does is end the
    response. *)
Theorem stream_failure_closes_without_done (up : upstream)
    (o : gmap string jsval) :
  passes_validation o = true →
  fails (up (request_of o)) →
  let w := snd (ask up (JObj o) fresh) in
  let received := fragments (emitted (up (request_of o))) in
  fst (ask up (JObj o) fresh) = Returns ()
  ∧ written (res w) = map chunk_frame received
  ∧ observed w = map (λ s, Some (EvChunk s)) received
  ∧ (done_frame ∉ written (res w))
  ∧ (∀ text : string, EJson text ∉ trace w)
  ∧ statusCode (res w) = 200
  ∧ finished (res w) = true
  ∧ last (trace w) = Some EEnd.
Proof.
  intros Hv Hf. cbv zeta. unfold observed. rewrite ask_valid by assumption.
  assert (Hnodone : ∀ texts, done_frame ∉ map chunk_frame texts).
  { intros texts Hin. apply list_elem_of_fmap in Hin as (s & Hs & _).
    symmetry in Hs. now apply chunk_frame_not_done in Hs. }
  assert (Hnojson : ∀ r texts tail text,
             EJson text ∉ tail →
             EJson text ∉ (stream_prologue r ++ map EWrite (map chunk_frame texts) ++ tail)).
  { intros r texts tail text Htail Hin.
    apply elem_of_app in Hin as [Hin | Hin].
    - unfold stream_prologue in Hin.
      repeat (apply elem_of_cons in Hin as [Hin | Hin]; [discriminate |]).
      now apply elem_of_nil in Hin.
    - apply elem_of_app in Hin as [Hin | Hin]; [| tauto].
      apply list_elem_of_fmap in Hin as (f & Hf' & _). discriminate. }
  assert (Htail : ∀ text, EJson text ∉ [log_ask; EEnd]).
  { intros text Hin.
    repeat (apply elem_of_cons in Hin as [Hin | Hin]; [discriminate |]).
    now apply elem_of_nil in Hin. }
  destruct (up (request_of o)) as [e | chunks [|e]]; cbn [fails] in Hf;
    [| contradiction |];
    cbn [fst snd res trace written finished statusCode emitted].
  - repeat split.
    + apply not_elem_of_nil.
    + intros text. apply (Hnojson _ [] _ text), Htail.
  - rewrite observed_frames. repeat split.
    + apply Hnodone.
    + intros text. apply Hnojson, Htail.
    + change [log_ask; EEnd] with ([log_ask] ++ [EEnd]).
      rewrite !app_assoc. apply last_snoc.
Qed.

Lemma stream_failure_closes_without_done_witness :
  let up : upstream :=
    λ _, Streams [text_chunk "a"; text_chunk "b"] (Breaks (Error "terminated")) in
  let o : gmap string jsval := {[ "question" := JStr "What is a contract?" ]} in
  let w := snd (ask up (JObj o) fresh) in
  let received := fragments (emitted (up (request_of o))) in
  fst (ask up (JObj o) fresh) = Returns ()
  ∧ written (res w) = map chunk_frame received
  ∧ observed w = map (λ s, Some (EvChunk s)) received
  ∧ (done_frame ∉ written (res w))
  ∧ (∀ text : string, EJson text ∉ trace w)
  ∧ statusCode (res w) = 200
  ∧ finished (res w) = true
  ∧ last (trace w) = Some EEnd.
Proof.
  exact (stream_failure_closes_without_done
           (λ _, Streams [text_chunk "a"; text_chunk "b"]
                   (Breaks (Error "terminated")))
           {[ "question" := JStr "What is a contract?" ]} eq_refl I).
Defined.

(** ** Chunks without text *)

Lemma fragments_app (l1 l2 : list chunk) :
  fragments (l1 ++ l2) = fragments l1 ++ fragments l2.
Proof. unfold fragments. now rewrite omap_app, filter_app. Qed.

Lemma fragments_skip (c : chunk) (rest : list chunk) :
  chunk_content c = None ∨ chunk_content c = Some "" →
  fragments (c :: rest) = fragments rest.
Proof. intros [H | H]; rewrite fragments_cons, H; reflexivity. Qed.

(** C9. A chunk whose first choice has no delta content, or has the empty
    string as content, makes the loop body do nothing, so the whole run is
    the one the handler would make had the chunk never been in the stream;
    and what a run writes is one frame per chunk with non-empty content, in
    order, followed by the done marker when the stream completes. *)
Theorem empty_content_not_forwarded (c : chunk) :
  chunk_content c = None ∨ chunk_content c = Some "" →
  (∀ w, forward_chunk c w = (Returns (), w))
  ∧ (∀ (up up' : upstream) (o : gmap string jsval) (before after : list chunk)
       (fin : stream_end),
       up (request_of o) = Streams (before ++ c :: after) fin →
       up' (request_of o) = Streams (before ++ after) fin →
       ask up (JObj o) fresh = ask up' (JObj o) fresh)
  ∧ (∀ (up : upstream) (o : gmap string jsval) (chunks : list chunk)
       (fin : stream_end),
       passes_validation o = true →
       up (request_of o) = Streams chunks fin →
       written (res (snd (ask up (JObj o) fresh))) =
       map chunk_frame (filter (λ s, s ≠ "") (omap chunk_content chunks))
       ++ match fin with Completes => [done_frame] | Breaks _ => [] end).
Proof.
  intros Hc. split; [| split].
  - intros w. unfold forward_chunk. destruct Hc as [-> | ->]; reflexivity.
  - intros up up' o before after fin Hup Hup'.
    destruct (passes_validation o) eqn:Hv.
    + rewrite !ask_valid, Hup, Hup' by assumption.
      now rewrite !fragments_app, (fragments_skip c after Hc).
    + now rewrite !ask_invalid.
  - intros up o chunks fin Hv Hup. rewrite ask_valid, Hup by assumption.
    fold (fragments chunks).
    destruct fin; cbn [snd res written]; [reflexivity | now rewrite app_nil_r].
Qed.

Lemma empty_content_not_forwarded_witness :
  (∀ w, forward_chunk (text_chunk "") w = (Returns (), w))
  ∧ (∀ (up up' : upstream) (o : gmap string jsval) (before after : list chunk)
       (fin : stream_end),
       up (request_of o) = Streams (before ++ text_chunk "" :: after) fin →
       up' (request_of o) = Streams (before ++ after) fin →
       ask up (JObj o) fresh = ask up' (JObj o) fresh)
  ∧ (∀ (up : upstream) (o : gmap string jsval) (chunks : list chunk)
       (fin : stream_end),
       passes_validation o = true →
       up (request_of o) = Streams chunks fin →
       written (res (snd (ask up (JObj o) fresh))) =
       map chunk_frame (filter (λ s, s ≠ "") (omap chunk_content chunks))
       ++ match fin with Completes => [done_frame] | Breaks _ => [] end).
Proof.
  apply (empty_content_not_forwarded (text_chunk "")). right. reflexivity.
Defined.

(** ** Event-stream mode comes first *)

(** C10. For a request that passes validation the handler sets the three
    event-stream headers and only then opens the upstream call, which is the
    only one it makes; and whatever the upstream does, the response ends
    with the content type [text/event-stream]. *)
Theorem event_stream_set_before_upstream (up : upstream)
    (o : gmap string jsval) :
  passes_validation o = true →
  let w := snd (ask up (JObj o) fresh) in
  (∃ rest,
     trace w =
       [ ESetHeader "Content-Type" "text/event-stream";
         ESetHeader "Cache-Control" "no-cache";
         ESetHeader "Connection" "keep-alive";
         EUpstream (request_of o) ] ++ rest
     ∧ upstream_calls rest = [])
  ∧ headers (res w) !! "Content-Type" = Some "text/event-stream"
  ∧ headers (res w) !! "Cache-Control" = Some "no-cache"
  ∧ headers (res w) !! "Connection" = Some "keep-alive"
  ∧ finished (res w) = true.
Proof.
  intros Hv. cbv zeta. rewrite ask_valid by assumption. cbn [snd].
  destruct (up (request_of o)) as [e | chunks [|e]];
    cbn [res trace headers finished]; (split; [| repeat split]).
  - exists [log_ask; EEnd]. now split.
  - exists (map EWrite (map chunk_frame (fragments chunks)) ++ [EWrite done_frame; EEnd]).
    split; [reflexivity |].
    now rewrite upstream_calls_app, upstream_calls_writes.
  - exists (map EWrite (map chunk_frame (fragments chunks)) ++ [log_ask; EEnd]).
    split; [reflexivity |].
    now rewrite upstream_calls_app, upstream_calls_writes.
Qed.

Lemma event_stream_set_before_upstream_witness :
  let up : upstream := λ _, Rejects (Error "fetch failed") in
  let o : gmap string jsval := {[ "question" := JStr "What is a contract?" ]} in
  let w := snd (ask up (JObj o) fresh) in
  (∃ rest,
     trace w =
       [ ESetHeader "Content-Type" "text/event-stream";
         ESetHeader "Cache-Control" "no-cache";
         ESetHeader "Connection" "keep-alive";
         EUpstream (request_of o) ] ++ rest
     ∧ upstream_calls rest = [])
  ∧ headers (res w) !! "Content-Type" = Some "text/event-stream"
  ∧ headers (res w) !! "Cache-Control" = Some "no-cache"
  ∧ headers (res w) !! "Connection" = Some "keep-alive"
  ∧ finished (res w) = true.
Proof.
  exact (event_stream_set_before_upstream
           (λ _, Rejects (Error "fetch failed"))
           {[ "question" := JStr "What is a contract?" ]} eq_refl).
Defined.

(** ** The catch-all error middleware *)

Lemma res_end_returns (w : world) : fst (res_end w) = Returns ().
Proof. reflexivity. Qed.

(** The route handler of [/ask] catches everything: it never passes an
    error on. *)
Lemma ask_returns (up : upstream) (v : jsval) (w : world) :
  fst (ask up v w) = Returns ().
Proof.
  unfold ask. rewrite run_try.
  match goal with |- context [match ?body w with _ => _ end] =>
    destruct (body w) as [[[] | e] w'] end.
  - reflexivity.
  - rewrite run_bind, run_log. apply res_end_returns.
Qed.

(** Whatever the stack passes on to the error middleware, it passes on
    with the response untouched. *)
Lemma routes_throw_untouched (h : host) (up : upstream) (req : request)
    (e : error) (w' : world) :
  routes h up req fresh = (Throws e, w') → res w' = fresh_response.
Proof.
  unfold routes. rewrite run_bind. unfold express_json.
  destruct (body req) as [v | e0].
  - rewrite run_ret.
    assert (Hnf : not_found fresh = (Throws e, w') → res w' = fresh_response)
      by discriminate.
    destruct (method req); try exact Hnf.
    + destruct (String.eqb (path req) "/"); [| exact Hnf].
      unfold index, res_sendFile. rewrite run_bind. cbn [emit].
      destruct (files h !! (dirname h +:+ "/index.html")).
      * discriminate.
      * unfold throw. intros [= _ <-]. reflexivity.
    + destruct (String.eqb (path req) "/ask"); [| exact Hnf].
      intros H. pose proof (ask_returns up v fresh) as Hr.
      rewrite H in Hr. discriminate.
  - unfold throw. intros [= _ <-]. reflexivity.
Qed.

(** C8. Whenever the body parser or a route passes an error on instead of
    answering, the error middleware logs it and answers with status 500 and
    the JSON body [{ error: 'An internal server error occurred.' }]. *)
Theorem unhandled_error_gets_500 (h : host) (up : upstream) (req : request)
    (e : error) (w' : world) :
  routes h up req fresh = (Throws e, w') →
  let w := serve h up req in
  statusCode (res w) = 500
  ∧ written (res w) = [json_object1 "error" "An internal server error occurred."]
  ∧ headers (res w) !! "Content-Type" = Some "application/json; charset=utf-8"
  ∧ finished (res w) = true
  ∧ trace w =
      trace w'
      ++ [ ELog "An unexpected error occurred:"; EStatus 500;
           EJson (json_object1 "error" "An internal server error occurred.") ].
Proof.
  intros H. pose proof (routes_throw_untouched _ _ _ _ _ H) as Hres.
  cbv zeta. unfold serve, app. rewrite run_try, H.
  destruct w' as [r t]. cbn [res] in Hres. subst r.
  unfold error_middleware, fresh_response.
  do 4 run_step. rewrite run_json by apply lookup_empty.
  cbn [snd res trace statusCode written headers finished].
  rewrite lookup_insert_eq, <- !app_assoc. repeat split.
Qed.

Lemma unhandled_error_gets_500_witness :
  let h := {| dirname := "/srv/app"; files := ∅ |} in
  let up : upstream := λ _, Rejects (Error "unreachable") in
  let req := {| method := POST; path := "/ask";
                body := Malformed (Error "Unexpected token } in JSON") |} in
  let w := serve h up req in
  statusCode (res w) = 500
  ∧ written (res w) = [json_object1 "error" "An internal server error occurred."]
  ∧ headers (res w) !! "Content-Type" = Some "application/json; charset=utf-8"
  ∧ finished (res w) = true
  ∧ trace w =
      trace fresh
      ++ [ ELog "An unexpected error occurred:"; EStatus 500;
           EJson (json_object1 "error" "An internal server error occurred.") ].
Proof.
  exact (unhandled_error_gets_500
           {| dirname := "/srv/app"; files := ∅ |}
           (λ _, Rejects (Error "unreachable"))
           {| method := POST; path := "/ask";
              body := Malformed (Error "Unexpected token } in JSON") |}
           (Error "Unexpected token } in JSON") fresh eq_refl).
Defined.

(** ** Start-up *)




(** * Further properties of the handler *)

(** ** Bodies of every kind *)

Lemma ask_primitive_body (up : upstream) (v : jsval) :
  primitive_or_array v → ask up v fresh = ask up (JObj ∅) fresh.
Proof. destruct v; cbn [primitive_or_array]; intros []; reflexivity. Qed.

Lemma ask_nullish_body (up : upstream) (v : jsval) :
  v = JUndefined ∨ v = JNull →
  ask up v fresh =
  (Returns (), {| res := Response 200 ∅ true [] true; trace := [log_ask; EEnd] |}).
Proof. intros [-> | ->]; reflexivity. Qed.

Lemma classify_body (v : jsval) :
  (v = JUndefined ∨ v = JNull) ∨ primitive_or_array v ∨ ∃ o, v = JObj o.
Proof.
  destruct v; cbn [primitive_or_array]; eauto.
Qed.

(** C3, at the failing input.  A request that arrives without a body has
    neither field, yet it is not answered with the 400 of the validation:
    with [req.body] undefined the destructuring of line 49 throws inside the
    [try], and the catch block logs and ends the response as it stands, an
    empty 200 with no JSON error.  The same request with the empty object as
    its body gets the 400. *)
Theorem missing_body_escapes_validation (up : upstream) :
  let w := snd (ask up JUndefined fresh) in
  statusCode (res w) = 200
  ∧ statusCode (res w) ≠ 400
  ∧ written (res w) = []
  ∧ finished (res w) = true
  ∧ trace w = [ELog "Error in /ask streaming route:"; EEnd]
  ∧ statusCode (res (snd (ask up (JObj ∅) fresh))) = 400.
Proof.
  cbv zeta. rewrite (ask_nullish_body up JUndefined) by now left.
  rewrite ask_invalid by reflexivity. repeat split. discriminate.
Qed.


(** X2. Every upstream call the handler makes names the fixed model and
    asks for a stream, and carries one or two messages; nothing in the
    request changes that. *)
Theorem upstream_call_is_fixed (up : upstream) (v : jsval) (r : completion_request) :
  r ∈ upstream_calls (trace (snd (ask up v fresh))) →
  model r = "google/gemini-2.0-flash-exp:free"
  ∧ stream r = true
  ∧ (List.length (messages r) = 1 ∨ List.length (messages r) = 2)%nat.
Proof.
  destruct (classify_body v) as [Hn | [Hp | [o ->]]].
  - rewrite (ask_nullish_body up v Hn). cbn. intros H.
    now apply elem_of_nil in H.
  - rewrite (ask_primitive_body up v Hp), ask_invalid by reflexivity.
    cbn. intros H. now apply elem_of_nil in H.
  - rewrite ask_upstream_calls.
    destruct (passes_validation o); intros H.
    + apply list_elem_of_singleton in H as ->.
      unfold request_of, stream_request, build_messages. cbn [model stream messages].
      destruct (truthy (prop o "imageUrl")); cbn; auto.
    + now apply elem_of_nil in H.
Qed.

Lemma upstream_call_is_fixed_witness :
  model (request_of {[ "question" := JStr "What is a contract?" ]}) =
    "google/gemini-2.0-flash-exp:free"
  ∧ stream (request_of {[ "question" := JStr "What is a contract?" ]}) = true
  ∧ (List.length (messages (request_of {[ "question" := JStr "What is a contract?" ]})) = 1
     ∨ List.length (messages (request_of {[ "question" := JStr "What is a contract?" ]})) = 2)%nat.
Proof.
  apply (upstream_call_is_fixed (λ _, Streams [] Completes)
           (JObj {[ "question" := JStr "What is a contract?" ]})).
  apply list_elem_of_singleton. reflexivity.
Defined.

(** X3. Only [question] and [imageUrl] are read from the body: two bodies
    that agree on them get the same run, whatever else they contain. *)
Theorem other_fields_ignored (up : upstream) (o1 o2 : gmap string jsval) :
  prop o1 "question" = prop o2 "question" →
  prop o1 "imageUrl" = prop o2 "imageUrl" →
  ask up (JObj o1) fresh = ask up (JObj o2) fresh.
Proof.
  intros Hq Hi.
  assert (Hv : passes_validation o1 = passes_validation o2)
    by (unfold passes_validation; congruence).
  assert (Hr : request_of o1 = request_of o2)
    by (unfold request_of; congruence).
  destruct (passes_validation o2) eqn:Hv2.
  - rewrite !ask_valid, Hr by assumption. reflexivity.
  - rewrite !ask_invalid by assumption. reflexivity.
Qed.

Lemma other_fields_ignored_witness :
  ask (λ _, Streams [] Completes)
    (JObj {[ "question" := JStr "q" ]}) fresh =
  ask (λ _, Streams [] Completes)
    (JObj (<[ "model" := JStr "openai/gpt-4o" ]> {[ "question" := JStr "q" ]}))
    fresh.
Proof.
  exact (other_fields_ignored (λ _, Streams [] Completes)
           {[ "question" := JStr "q" ]}
           (<[ "model" := JStr "openai/gpt-4o" ]> {[ "question" := JStr "q" ]})
           eq_refl eq_refl).
Defined.

(** X4. A body that is a boolean, a number, a string or an array has
    neither property, so it is answered like the empty object: status 400
    with the validation message, and no upstream call. *)
Theorem primitive_body_rejected (up : upstream) (v : jsval) :
  primitive_or_array v →
  let w := snd (ask up v fresh) in
  statusCode (res w) = 400
  ∧ written (res w) = [json_object1 "error" "Question or Image URL is required."]
  ∧ finished (res w) = true
  ∧ upstream_calls (trace w) = [].
Proof.
  intros Hp. cbv zeta.
  rewrite (ask_primitive_body up v Hp), ask_invalid by reflexivity.
  repeat split.
Qed.

Lemma primitive_body_rejected_witness :
  let w := snd (ask (λ _, Streams [] Completes) (JArr [JStr "question"]) fresh) in
  statusCode (res w) = 400
  ∧ written (res w) = [json_object1 "error" "Question or Image URL is required."]
  ∧ finished (res w) = true
  ∧ upstream_calls (trace w) = [].
Proof.
  exact (primitive_body_rejected (λ _, Streams [] Completes)
           (JArr [JStr "question"]) I).
Defined.

(** X5. When [req.body] is [undefined] or [null] the destructuring of line
    49 throws inside the [try]: the handler logs and ends the response as it
    stands, so the client gets an empty 200 with no header set by the
    handler, not the 400 of the validation, and no upstream call is made. *)
Theorem nullish_body_ends_empty (up : upstream) (v : jsval) :
  v = JUndefined ∨ v = JNull →
  let w := snd (ask up v fresh) in
  statusCode (res w) = 200
  ∧ headers (res w) = ∅
  ∧ written (res w) = []
  ∧ finished (res w) = true
  ∧ trace w = [ELog "Error in /ask streaming route:"; EEnd].
Proof.
  intros Hn. cbv zeta. rewrite (ask_nullish_body up v Hn). repeat split.
Qed.

Lemma nullish_body_ends_empty_witness :
  let w := snd (ask (λ _, Streams [] Completes) JUndefined fresh) in
  statusCode (res w) = 200
  ∧ headers (res w) = ∅
  ∧ written (res w) = []
  ∧ finished (res w) = true
  ∧ trace w = [ELog "Error in /ask streaming route:"; EEnd].
Proof.
  apply (nullish_body_ends_empty (λ _, Streams [] Completes) JUndefined).
  left. reflexivity.
Defined.

(** X6. For an object body the 400 answer is given exactly when both fields
    are falsy, and the response is an event stream exactly when one of them
    is truthy. *)
Theorem validation_is_exact (up : upstream) (o : gmap string jsval) :
  let w := snd (ask up (JObj o) fresh) in
  (statusCode (res w) = 400 ↔
     truthy (prop o "question") = false ∧ truthy (prop o "imageUrl") = false)
  ∧ (headers (res w) !! "Content-Type" = Some "text/event-stream" ↔
     truthy (prop o "question") = true ∨ truthy (prop o "imageUrl") = true).
Proof.
  cbv zeta. destruct (passes_validation o) eqn:Hv.
  - rewrite ask_valid by assumption.
    unfold passes_validation in Hv. apply orb_true_iff in Hv.
    assert (Hst : ∀ w, statusCode (res w) = 200 → statusCode (res w) = 400 → False)
      by (intros w -> ; discriminate).
    destruct (up (request_of o)) as [e | chunks [|e]];
      cbn [snd res statusCode headers]; (split; split; intros H; try done);
      destruct H as [Hq Hi], Hv as [Hv | Hv]; congruence.
  - rewrite ask_invalid by assumption.
    unfold passes_validation in Hv. apply orb_false_iff in Hv as [Hq Hi].
    cbn [snd res statusCode headers]. rewrite lookup_singleton_eq.
    split; split; intros H; try done.
    destruct H; congruence.
Qed.

(** ** The shape of the stream *)

Lemma done_not_among_frames (texts : list string) :
  done_frame ∉ map chunk_frame texts.
Proof.
  intros Hin. apply list_elem_of_fmap in Hin as (s & Hs & _).
  symmetry in Hs. now apply chunk_frame_not_done in Hs.
Qed.

(** X7. For a validated request whose upstream call yields a stream, the
    done marker is written exactly when the stream completes, and then once,
    as the last frame. *)
Theorem done_marker_exactly_on_completion (up : upstream)
    (o : gmap string jsval) (chunks : list chunk) (fin : stream_end) :
  passes_validation o = true →
  up (request_of o) = Streams chunks fin →
  let wr := written (res (snd (ask up (JObj o) fresh))) in
  (done_frame ∈ wr ↔ fin = Completes)
  ∧ (fin = Completes → ∃ init, wr = init ++ [done_frame] ∧ done_frame ∉ init).
Proof.
  intros Hv Hup. cbv zeta. rewrite ask_valid, Hup by assumption.
  destruct fin as [|e]; cbn [snd res written].
  - split.
    + split; [reflexivity |]. intros _.
      apply elem_of_app. right. apply list_elem_of_singleton. reflexivity.
    + intros _. eexists. split; [reflexivity | apply done_not_among_frames].
  - split.
    + split; [| discriminate]. intros H.
      now apply done_not_among_frames in H.
    + discriminate.
Qed.

Lemma done_marker_exactly_on_completion_witness :
  let up : upstream := λ _, Streams [text_chunk "a"; text_chunk "b"] Completes in
  let o : gmap string jsval := {[ "question" := JStr "What is a contract?" ]} in
  let wr := written (res (snd (ask up (JObj o) fresh))) in
  (done_frame ∈ wr ↔ Completes = Completes)
  ∧ (Completes = Completes →
     ∃ init, wr = init ++ [done_frame] ∧ done_frame ∉ init).
Proof.
  exact (done_marker_exactly_on_completion
           (λ _, Streams [text_chunk "a"; text_chunk "b"] Completes)
           {[ "question" := JStr "What is a contract?" ]}
           [text_chunk "a"; text_chunk "b"] Completes eq_refl eq_refl).
Defined.

(** X8. A client cut off by a failure has seen a prefix of what it would
    have seen had the stream gone on: the frames written for a stream that
    breaks after some chunks are the first frames written for any stream
    that starts with those chunks. *)
Theorem broken_stream_writes_prefix (up1 up2 : upstream)
    (o : gmap string jsval) (before after : list chunk) (e : error)
    (fin : stream_end) :
  passes_validation o = true →
  up1 (request_of o) = Streams before (Breaks e) →
  up2 (request_of o) = Streams (before ++ after) fin →
  written (res (snd (ask up1 (JObj o) fresh)))
    `prefix_of` written (res (snd (ask up2 (JObj o) fresh))).
Proof.
  intros Hv H1 H2. rewrite !ask_valid, H1, H2 by assumption.
  destruct fin; cbn [snd res written];
    rewrite fragments_app, map_app.
  - rewrite <- app_assoc. apply prefix_app_r. reflexivity.
  - apply prefix_app_r. reflexivity.
Qed.

Lemma broken_stream_writes_prefix_witness :
  written
    (res (snd (ask (λ _, Streams [text_chunk "a"] (Breaks (Error "terminated")))
                 (JObj {[ "question" := JStr "q" ]}) fresh)))
    `prefix_of`
  written
    (res (snd (ask (λ _, Streams ([text_chunk "a"] ++ [text_chunk "b"]) Completes)
                 (JObj {[ "question" := JStr "q" ]}) fresh))).
Proof.
  exact (broken_stream_writes_prefix
           (λ _, Streams [text_chunk "a"] (Breaks (Error "terminated")))
           (λ _, Streams ([text_chunk "a"] ++ [text_chunk "b"]) Completes)
           {[ "question" := JStr "q" ]}
           [text_chunk "a"] [text_chunk "b"] (Error "terminated") Completes
           eq_refl eq_refl eq_refl).
Defined.

Lemma concat_texts_filter (l : list string) :
  concat_texts (filter (λ s, s ≠ "") l) = concat_texts l.
Proof.
  induction l as [|s l IH]; [reflexivity |].
  rewrite filter_cons. destruct (decide (s ≠ "")) as [H | H].
  - cbn [concat_texts foldr]. f_equal. exact IH.
  - apply dec_stable in H. subst s. exact IH.
Qed.

Lemma event_text_frames (texts : list string) :
  map event_text (map parse_frame (map chunk_frame texts)) = texts.
Proof.
  induction texts as [|s texts IH]; [reflexivity |].
  cbn [map]. rewrite parse_chunk_frame, IH. reflexivity.
Qed.

Lemma concat_texts_snoc_empty (l : list string) :
  concat_texts (l ++ [""]) = concat_texts l.
Proof. unfold concat_texts. rewrite foldr_app. reflexivity. Qed.

(** X9. Dropping the empty fragments loses no text: the answer the client
    assembles from the frames it read is the concatenation of every content
    the upstream sent, in order, whether the stream completed or broke. *)
Theorem assembled_text_is_upstream_text (up : upstream)
    (o : gmap string jsval) (chunks : list chunk) (fin : stream_end) :
  passes_validation o = true →
  up (request_of o) = Streams chunks fin →
  assembled (snd (ask up (JObj o) fresh)) =
  concat_texts (omap chunk_content chunks).
Proof.
  intros Hv Hup. unfold assembled, observed.
  rewrite ask_valid, Hup by assumption.
  destruct fin; cbn [snd res written].
  - rewrite !map_app, event_text_frames. cbn [map].
    rewrite parse_done_frame. cbn [event_text].
    rewrite concat_texts_snoc_empty. apply concat_texts_filter.
  - rewrite event_text_frames. apply concat_texts_filter.
Qed.

Lemma assembled_text_is_upstream_text_witness :
  assembled
    (snd (ask (λ _, Streams [text_chunk ""; text_chunk "Hel"; text_chunk "lo"] Completes)
            (JObj {[ "question" := JStr "q" ]}) fresh)) =
  concat_texts (omap chunk_content [text_chunk ""; text_chunk "Hel"; text_chunk "lo"]).
Proof.
  exact (assembled_text_is_upstream_text
           (λ _, Streams [text_chunk ""; text_chunk "Hel"; text_chunk "lo"] Completes)
           {[ "question" := JStr "q" ]}
           [text_chunk ""; text_chunk "Hel"; text_chunk "lo"] Completes
           eq_refl eq_refl).
Defined.

(** X10. The client cannot tell one upstream failure from another: for a
    validated request the response depends only on the chunks received
    before the failure, not on the error, nor on whether the call was
    rejected or the stream broke before its first chunk. *)
Theorem failure_cause_not_observable (up1 up2 : upstream)
    (o : gmap string jsval) :
  passes_validation o = true →
  fails (up1 (request_of o)) →
  fails (up2 (request_of o)) →
  emitted (up1 (request_of o)) = emitted (up2 (request_of o)) →
  res (snd (ask up1 (JObj o) fresh)) = res (snd (ask up2 (JObj o) fresh)).
Proof.
  intros Hv H1 H2 He. rewrite !ask_valid by assumption.
  destruct (up1 (request_of o)) as [e1 | c1 [|e1]];
    destruct (up2 (request_of o)) as [e2 | c2 [|e2]];
    cbn [fails emitted] in *; try contradiction; subst; reflexivity.
Qed.

Lemma failure_cause_not_observable_witness :
  res (snd (ask (λ _, Rejects (Error "401 Unauthorized"))
              (JObj {[ "question" := JStr "q" ]}) fresh)) =
  res (snd (ask (λ _, Streams [] (Breaks (Error "socket hang up")))
              (JObj {[ "question" := JStr "q" ]}) fresh)).
Proof.
  exact (failure_cause_not_observable
           (λ _, Rejects (Error "401 Unauthorized"))
           (λ _, Streams [] (Breaks (Error "socket hang up")))
           {[ "question" := JStr "q" ]} eq_refl I I eq_refl).
Defined.

(** ** Frames on the wire *)

Lemma all_printable_app (a b : string) :
  all_printable (a +:+ b) = all_printable a && all_printable b.
Proof.
  unfold all_printable. induction a as [|c a IH]; [reflexivity |].
  simpl. rewrite IH. now rewrite andb_assoc.
Qed.

Lemma quote_char_printable (c : ascii) : all_printable (quote_char c) = true.
Proof. destruct c as [[] [] [] [] [] [] [] []]; reflexivity. Qed.

Lemma quote_chars_printable (s : string) : all_printable (quote_chars s) = true.
Proof.
  induction s as [|c s IH]; [reflexivity |].
  cbn [quote_chars]. now rewrite all_printable_app, quote_char_printable, IH.
Qed.

Lemma json_string_printable (s : string) : all_printable (json_string s) = true.
Proof.
  unfold json_string.
  change (String dquote (quote_chars s +:+ String dquote ""))
    with (String dquote "" +:+ (quote_chars s +:+ String dquote "")).
  now rewrite !all_printable_app, quote_chars_printable.
Qed.

(** X11. Whatever the content, the JSON payload of a chunk frame holds no
    control character: every line feed, carriage return or other character
    below the space is escaped, so the frame is one [data:] line ended by
    the blank line and text from the upstream cannot start a frame of its
    own. *)
Theorem chunk_frame_payload_has_no_control_character (content : string) :
  chunk_frame content = "data: " +:+ json_object1 "chunk" content +:+ frame_end
  ∧ ∀ c, c ∈ list_ascii_of_string (json_object1 "chunk" content) →
         (32 ≤ N_of_ascii c)%N.
Proof.
  split; [reflexivity |].
  assert (H : all_printable (json_object1 "chunk" content) = true).
  { unfold json_object1.
    now rewrite !all_printable_app, !json_string_printable. }
  intros c Hc. unfold all_printable in H.
  rewrite forallb_forall in H. apply list_elem_of_In, H in Hc.
  unfold printable in Hc. now apply N.leb_le.
Qed.

(** X12. A frame determines its content: two contents with the same chunk
    frame are equal, and no content at all gives the done frame, so the
    marker cannot be forged by text from the upstream. *)
Theorem chunk_frame_determines_content :
  (∀ s t, chunk_frame s = chunk_frame t → s = t)
  ∧ (∀ s, chunk_frame s ≠ done_frame).
Proof.
  split.
  - intros s t H. apply (f_equal parse_frame) in H.
    rewrite !parse_chunk_frame in H. congruence.
  - intros s H. apply (f_equal parse_frame) in H.
    rewrite parse_chunk_frame, parse_done_frame in H. discriminate.
Qed.

(** ** The application and start-up *)

(** X13. Only a [POST] whose body was parsed can reach the upstream: for
    any other method, and for a body the parser refused, the server makes no
    upstream call. *)
Theorem upstream_only_for_parsed_post (h : host) (up : upstream) (req : request) :
  (method req ≠ POST ∨ ∃ e, body req = Malformed e) →
  upstream_calls (trace (serve h up req)) = [].
Proof.
  intros H. unfold serve, app. rewrite run_try. unfold routes.
  rewrite run_bind. unfold express_json.
  destruct (body req) as [v | e0].
  - destruct H as [H | [e H]]; [| discriminate].
    rewrite run_ret.
    destruct (method req) as [| | name]; [| contradiction |].
    + destruct (String.eqb (path req) "/"); [| reflexivity].
      unfold index, res_sendFile. rewrite run_bind. cbn [emit].
      destruct (files h !! (dirname h +:+ "/index.html")); reflexivity.
    + reflexivity.
  - reflexivity.
Qed.

Lemma upstream_only_for_parsed_post_witness :
  upstream_calls
    (trace (serve {| dirname := "/srv/app"; files := ∅ |}
              (λ _, Streams [] Completes)
              {| method := POST; path := "/ask";
                 body := Malformed (Error "Unexpected end of JSON input") |})) = [].
Proof.
  apply (upstream_only_for_parsed_post
           {| dirname := "/srv/app"; files := ∅ |}
           (λ _, Streams [] Completes)
           {| method := POST; path := "/ask";
              body := Malformed (Error "Unexpected end of JSON input") |}).
  right. eexists. reflexivity.
Defined.

(** X14. A failure of the upstream never shows as a 500: when the body of
    a [POST /ask] was parsed, the response is the handler's own, the error
    middleware does not run, and the status is 200 or 400 whatever the
    upstream does. *)
Theorem ask_errors_stay_in_handler (h : host) (up : upstream) (req : request)
    (v : jsval) :
  method req = POST →
  path req = "/ask" →
  body req = Json v →
  serve h up req = snd (ask up v fresh)
  ∧ statusCode (res (serve h up req)) ≠ 500
  ∧ ELog "An unexpected error occurred:" ∉ trace (serve h up req).
Proof.
  intros Hm Hp Hb.
  assert (Hs : serve h up req = snd (ask up v fresh)).
  { unfold serve, app. rewrite run_try. unfold routes.
    rewrite run_bind. unfold express_json. rewrite Hb, run_ret, Hm, Hp.
    cbn [String.eqb Ascii.eqb Bool.eqb].
    pose proof (ask_returns up v fresh) as Hr.
    destruct (ask up v fresh) as [[[] | e] w]; [reflexivity | discriminate]. }
  rewrite Hs. split; [reflexivity |].
  destruct (classify_body v) as [Hn | [Hpr | [o ->]]].
  - rewrite (ask_nullish_body up v Hn). cbn [snd res trace statusCode].
    split; [discriminate |]. intros Hin.
    repeat (apply elem_of_cons in Hin as [Hin | Hin]; [discriminate |]).
    now apply elem_of_nil in Hin.
  - rewrite (ask_primitive_body up v Hpr), ask_invalid by reflexivity.
    cbn [snd res trace statusCode].
    split; [discriminate |]. intros Hin.
    repeat (apply elem_of_cons in Hin as [Hin | Hin]; [discriminate |]).
    now apply elem_of_nil in Hin.
  - assert (Hw : ∀ texts tail,
               ELog "An unexpected error occurred:" ∉ tail →
               ELog "An unexpected error occurred:"
                 ∉ (stream_prologue (request_of o)
                    ++ map EWrite (map chunk_frame texts) ++ tail)).
    { intros texts tail Htail Hin.
      apply elem_of_app in Hin as [Hin | Hin].
      - unfold stream_prologue in Hin.
        repeat (apply elem_of_cons in Hin as [Hin | Hin]; [discriminate |]).
        now apply elem_of_nil in Hin.
      - apply elem_of_app in Hin as [Hin | Hin]; [| tauto].
        apply list_elem_of_fmap in Hin as (f & Hf & _). discriminate. }
    assert (Ht : ∀ x y : effect,
               x ≠ ELog "An unexpected error occurred:" →
               y ≠ ELog "An unexpected error occurred:" →
               ELog "An unexpected error occurred:" ∉ [x; y]).
    { intros x y Hx Hy Hin.
      apply elem_of_cons in Hin as [Hin | Hin]; [congruence |].
      apply elem_of_cons in Hin as [Hin | Hin]; [congruence |].
      now apply elem_of_nil in Hin. }
    destruct (passes_validation o) eqn:Hv.
    + rewrite ask_valid by assumption.
      destruct (up (request_of o)) as [e | chunks [|e]];
        cbn [snd res trace statusCode]; (split; [discriminate |]).
      * apply (Hw []), Ht; discriminate.
      * apply Hw, Ht; discriminate.
      * apply Hw, Ht; discriminate.
    + rewrite ask_invalid by assumption. cbn [snd res trace statusCode].
      split; [discriminate |]. apply Ht; discriminate.
Qed.

Lemma ask_errors_stay_in_handler_witness :
  let h := {| dirname := "/srv/app"; files := ∅ |} in
  let up : upstream := λ _, Rejects (Error "401 Unauthorized") in
  let req := {| method := POST; path := "/ask";
                body := Json (JObj {[ "question" := JStr "q" ]}) |} in
  serve h up req = snd (ask up (JObj {[ "question" := JStr "q" ]}) fresh)
  ∧ statusCode (res (serve h up req)) ≠ 500
  ∧ ELog "An unexpected error occurred:" ∉ trace (serve h up req).
Proof.
  exact (ask_errors_stay_in_handler
           {| dirname := "/srv/app"; files := ∅ |}
           (λ _, Rejects (Error "401 Unauthorized"))
           {| method := POST; path := "/ask";
              body := Json (JObj {[ "question" := JStr "q" ]}) |}
           (JObj {[ "question" := JStr "q" ]}) eq_refl eq_refl eq_refl).
Defined.

(** X15. The default port 3000 is used exactly when [PORT] is unset or set
    to the empty string. *)
Theorem port_default_exactly_when_unset (env : gmap string string) :
  port env = JNum 3000 ↔ env !! "PORT" = None ∨ env !! "PORT" = Some "".
Proof.
  unfold port, env_get, js_or.
  destruct (env !! "PORT") as [p |]; cbn [from_option].
  - rewrite truthy_JStr. destruct (decide (p = "")) as [-> | Hp].
    + rewrite bool_decide_eq_false_2 by tauto. split; auto.
    + rewrite bool_decide_eq_true_2 by assumption.
      split; [discriminate |]. intros [H | H]; congruence.
  - split; auto.
Qed.

(** ** Logging *)

(** X16. For an object body, the handler logs an error exactly when the
    request passed validation and the upstream then failed: a rejected
    request and a completed stream leave no error in the log. *)
Theorem error_logged_exactly_on_failure (up : upstream) (o : gmap string jsval) :
  ELog "Error in /ask streaming route:" ∈ trace (snd (ask up (JObj o) fresh))
  ↔ passes_validation o = true ∧ fails (up (request_of o)).
Proof.
  assert (Hw : ∀ texts tail,
             log_ask ∈ (stream_prologue (request_of o)
                        ++ map EWrite (map chunk_frame texts) ++ tail) →
             log_ask ∈ tail).
  { intros texts tail Hin.
    apply elem_of_app in Hin as [Hin | Hin].
    - unfold stream_prologue in Hin.
      repeat (apply elem_of_cons in Hin as [Hin | Hin]; [discriminate |]).
      now apply elem_of_nil in Hin.
    - apply elem_of_app in Hin as [Hin | Hin]; [| assumption].
      apply list_elem_of_fmap in Hin as (f & Hf & _). discriminate. }
  fold log_ask. destruct (passes_validation o) eqn:Hv.
  - rewrite ask_valid by assumption.
    destruct (up (request_of o)) as [e | chunks [|e]];
      cbn [snd trace fails].
    + split; [auto |]. intros _.
      apply elem_of_app. right. apply elem_of_cons. now left.
    + split; [| tauto]. intros Hin. apply Hw in Hin.
      repeat (apply elem_of_cons in Hin as [Hin | Hin]; [discriminate |]).
      now apply elem_of_nil in Hin.
    + split; [auto |]. intros _.
      apply elem_of_app. right. apply elem_of_app. right.
      apply elem_of_cons. now left.
  - rewrite ask_invalid by assumption. cbn [snd trace].
    split; [| intros [? _]; discriminate]. intros Hin.
    repeat (apply elem_of_cons in Hin as [Hin | Hin]; [discriminate |]).
    now apply elem_of_nil in Hin.
Qed.
